(** * A shallow embedding of [useful.py] (Python 2 utility functions)

    Python values are modelled by Rocq types; Python exceptions by an
    explicit outcome type; Python dictionaries by stdpp's [gmap]; lists
    by Rocq lists; integers by [Z]. *)

From Stdlib Require Import ZArith Lia.
From stdpp Require Import base gmap sets list strings.

Open Scope Z_scope.

(* ------------------------------------------------------------------ *)
(** ** Dictionaries: [union_with] *)

Section UnionWith.
Context {K : Type} `{Countable K} {V : Type}.

(** [d.get(key, dflt)] *)
Definition dict_get (d : gmap K V) (key : K) (dflt : V) : V :=
  match d !! key with
  | Some v => v
  | None => dflt
  end.

(** [d.keys()] (Python 2: a list) *)
Definition dict_keys (d : gmap K V) : list K := (map_to_list d).*1.

(** [return {key : mappend(d1.get(key, mempty), d2.get(key, mempty))
              for key in set(d1.keys() + d2.keys())}] *)
Definition union_with (mempty : V) (mappend : V -> V -> V)
    (d1 d2 : gmap K V) : gmap K V :=
  let keys : gset K := list_to_set (dict_keys d1 ++ dict_keys d2) in
  list_to_map
    ((fun key => (key, mappend (dict_get d1 key mempty) (dict_get d2 key mempty)))
       <$> elements keys).

End UnionWith.

Lemma ex_union_with_add :
  union_with (K:=string) 0 Z.add
    (<["a":=3]> (<["b":=2]> (<["d":=0]> ∅)))
    (<["a":=42]> (<["b":=12]> (<["c":=4]> ∅)))
  = <["a":=45]> (<["b":=14]> (<["c":=4]> (<["d":=0]> ∅))).
Proof. vm_compute. reflexivity. Qed.

Section UnionWithProofs.
Context {K : Type} `{Countable K} {V : Type}.

Lemma elem_of_dict_keys (d : gmap K V) (k : K) :
  k ∈ dict_keys d <-> is_Some (d !! k).
Proof.
  unfold dict_keys. rewrite list_elem_of_fmap. split.
  - intros [[k' v] [-> Hin]]. apply elem_of_map_to_list in Hin. simpl. eauto.
  - intros [v Hv]. exists (k, v). split; [done|]. by apply elem_of_map_to_list.
Qed.

Lemma fst_fmap_pair {W} (f : K -> W) (l : list K) :
  ((fun key => (key, f key)) <$> l).*1 = l.
Proof. rewrite <- list_fmap_compose. apply list_fmap_id. Qed.

(** C1: the key set of the result is the union of the key sets, and
    every value is [mappend v1 v2] with missing sides read as [mempty],
    [d1]'s side first. *)
Theorem union_with_lookup (mempty : V) (mappend : V -> V -> V)
    (d1 d2 : gmap K V) (k : K) :
  union_with mempty mappend d1 d2 !! k =
  match d1 !! k, d2 !! k with
  | None, None => None
  | o1, o2 => Some (mappend (default mempty o1) (default mempty o2))
  end.
Proof.
  unfold union_with.
  set (X := list_to_set (dict_keys d1 ++ dict_keys d2) : gset K).
  assert (HX : k ∈ X <-> is_Some (d1 !! k) \/ is_Some (d2 !! k)).
  { unfold X. rewrite elem_of_list_to_set, elem_of_app, !elem_of_dict_keys. done. }
  destruct (decide (k ∈ X)) as [Hk|Hk].
  - rewrite (elem_of_list_to_map_1 _ k
      (mappend (dict_get d1 k mempty) (dict_get d2 k mempty))).
    + apply HX in Hk. unfold dict_get.
      destruct (d1 !! k), (d2 !! k); simpl; try done.
      destruct Hk as [[? ?]|[? ?]]; discriminate.
    + rewrite fst_fmap_pair. apply NoDup_elements.
    + apply list_elem_of_fmap. exists k. split; [done|]. by apply elem_of_elements.
  - rewrite not_elem_of_list_to_map_1.
    + rewrite HX in Hk. destruct (d1 !! k) eqn:E1, (d2 !! k) eqn:E2; try done;
        exfalso; apply Hk; eauto.
    + rewrite fst_fmap_pair. by rewrite elem_of_elements.
Qed.

End UnionWithProofs.

(* ------------------------------------------------------------------ *)
(** ** Python 2 exceptions *)

(** The built-in exception classes the module touches, with their
    Python 2.7 hierarchy, and user classes deriving from any list of
    classes (Python allows multiple inheritance, e.g.
    [class X(KeyError, SystemExit)]). *)
Local Set Warnings "-register-all".

Inductive exn_class : Type :=
  | BaseException
  | SystemExit
  | KeyboardInterrupt
  | GeneratorExit
  | Exception
  | StopIteration
  | StandardError
  | LookupError
  | IndexError
  | KeyError
  | ArithmeticError
  | ZeroDivisionError
  | TypeError
  | OverflowError
  | MemoryError
  | UserDefined (name : string) (bases : list exn_class).

(** Built-in classes are numbered; user classes have no number. *)
Definition builtin_tag (c : exn_class) : option nat :=
  match c with
  | BaseException => Some 0 | SystemExit => Some 1 | KeyboardInterrupt => Some 2
  | GeneratorExit => Some 3 | Exception => Some 4 | StopIteration => Some 5
  | StandardError => Some 6 | LookupError => Some 7 | IndexError => Some 8
  | KeyError => Some 9 | ArithmeticError => Some 10 | ZeroDivisionError => Some 11
  | TypeError => Some 12 | OverflowError => Some 13
  | MemoryError => Some 14
  | UserDefined _ _ => None
  end%nat.

(** Pointwise equality of two lists under [eqb]. *)
Fixpoint list_eqb {A : Type} (eqb : A -> A -> bool) (l1 l2 : list A) : bool :=
  match l1, l2 with
  | [], [] => true
  | x :: l1', y :: l2' => eqb x y && list_eqb eqb l1' l2'
  | _, _ => false
  end.

(** Class identity: built-ins by their number, user classes by name and
    bases. *)
Fixpoint exn_class_eqb (a b : exn_class) : bool :=
  match a, b with
  | UserDefined n1 bs1, UserDefined n2 bs2 =>
      String.eqb n1 n2 && list_eqb exn_class_eqb bs1 bs2
  | _, _ =>
      match builtin_tag a, builtin_tag b with
      | Some i, Some j => Nat.eqb i j
      | _, _ => false
      end
  end.

(** Proper ancestors of the built-in classes. *)
Definition builtin_bases (c : exn_class) : list exn_class :=
  match c with
  | BaseException => []
  | SystemExit | KeyboardInterrupt | GeneratorExit | Exception => [BaseException]
  | StopIteration | StandardError => [Exception; BaseException]
  | LookupError | ArithmeticError | TypeError | MemoryError =>
      [StandardError; Exception; BaseException]
  | IndexError | KeyError => [LookupError; StandardError; Exception; BaseException]
  | ZeroDivisionError | OverflowError =>
      [ArithmeticError; StandardError; Exception; BaseException]
  | UserDefined _ _ => []
  end.

(** The class and all its ancestors (through every base; the order of a
    Python MRO does not matter to [isinstance]). *)
Fixpoint mro (c : exn_class) : list exn_class :=
  c :: match c with
       | UserDefined _ bases => flat_map mro bases
       | _ => builtin_bases c
       end.

Definition issubclass (c t : exn_class) : bool := existsb (exn_class_eqb t) (mro c).

(** An exception object: its class and its message. *)
Record exn : Type := mk_exn { exn_cls : exn_class; exn_msg : string }.

Definition isinstance (e : exn) (t : exn_class) : bool := issubclass (exn_cls e) t.

(** Result of running Python code: a value, or a raised exception. *)
Inductive outcome (V : Type) : Type :=
  | Ok (v : V)
  | Raise (e : exn).
Arguments Ok {V} v.
Arguments Raise {V} e.

(** A deferred computation over a state [S] (the heap it may touch). *)
Definition comp (S V : Type) : Type := S -> S * outcome V.

(* ------------------------------------------------------------------ *)
(** ** [maybe] and [maybe_get] *)

(** [try: return f()
     except SystemExit: raise
     except Exception as exn:
         if any([isinstance(exn, e) for e in exceptions]): return default
         else: raise exn]
    Any other exception is not caught and propagates. *)
Definition maybe {S V : Type} (f : comp S V) (default : V)
    (exceptions : list exn_class) : comp S V :=
  fun s =>
    let (s', r) := f s in
    match r with
    | Ok v => (s', Ok v)
    | Raise exn =>
        if isinstance exn SystemExit then (s', Raise exn)
        else if isinstance exn Exception then
          if existsb (fun e => isinstance exn e) exceptions
          then (s', Ok default)
          else (s', Raise exn)
        else (s', Raise exn)
    end.

(** [return maybe(f_dict, default, [LookupError])] *)
Definition maybe_get {S V : Type} (f_dict : comp S V) (default : V) : comp S V :=
  maybe f_dict default [LookupError].

(** Computations used in the doctests. *)
Definition raising {S V : Type} (e : exn) : comp S V := fun s => (s, Raise e).
Definition returning {S V : Type} (v : V) : comp S V := fun s => (s, Ok v).

Definition key_error : exn := mk_exn KeyError "bar".
Definition zero_div : exn := mk_exn ZeroDivisionError "integer division or modulo by zero".
Definition kbd_interrupt : exn := mk_exn KeyboardInterrupt "".
Definition sys_exit : exn := mk_exn SystemExit "".

Lemma ex_maybe_get_missing :
  snd (maybe_get (S:=unit) (V:=option Z) (raising key_error) None tt) = Ok None.
Proof. reflexivity. Qed.

Lemma ex_maybe_zero_div :
  snd (maybe (S:=unit) (V:=option Z) (raising zero_div) None [ZeroDivisionError] tt)
  = Ok None.
Proof. reflexivity. Qed.

Lemma ex_maybe_ok :
  snd (maybe (S:=unit) (returning 200) 0 [ZeroDivisionError] tt) = Ok 200.
Proof. reflexivity. Qed.

(* ------------------------------------------------------------------ *)
(** ** Facts about the class hierarchy *)

(** Induction over classes, with the bases of a user class as a list. *)
Definition exn_class_ind' (P : exn_class -> Prop)
    (Hbuiltin : forall c, builtin_tag c <> None -> P c)
    (Huser : forall n bs, Forall P bs -> P (UserDefined n bs)) :
    forall c, P c :=
  fix go (c : exn_class) : P c :=
    match c as c0 return P c0 with
    | UserDefined n bs =>
        Huser n bs
          ((fix go_list (l : list exn_class) : Forall P l :=
              match l as l0 return Forall P l0 with
              | [] => @List.Forall_nil _ P
              | b :: l' => @List.Forall_cons _ P b l' (go b) (go_list l')
              end) bs)
    | c0 => Hbuiltin c0 ltac:(discriminate)
    end.

Lemma issubclass_user_builtin (n : string) (bs : list exn_class) (t : exn_class) :
  builtin_tag t <> None ->
  issubclass (UserDefined n bs) t = existsb (fun b => issubclass b t) bs.
Proof.
  intros Ht. unfold issubclass. simpl.
  replace (exn_class_eqb t (UserDefined n bs)) with false
    by (destruct t; simpl in *; congruence).
  simpl. induction bs as [|b bs IH]; simpl; [done|].
  by rewrite existsb_app, IH.
Qed.

Lemma LookupError_is_Exception (c : exn_class) :
  issubclass c LookupError = true -> issubclass c Exception = true.
Proof.
  induction c as [c Hc|n bs Hbs] using exn_class_ind'.
  - destruct c; try (exfalso; by apply Hc); vm_compute; congruence.
  - rewrite !issubclass_user_builtin by discriminate.
    rewrite !existsb_exists. intros [b [Hb Hsub]]. exists b. split; [done|].
    rewrite List.Forall_forall in Hbs. by apply Hbs.
Qed.

(* ------------------------------------------------------------------ *)
(** ** Claims about [maybe] and [maybe_get] *)

Section MaybeProofs.
Context {S V : Type}.

(** C2 (as amended): [f] runs once (its effect on the state is kept
    exactly once); a normal result is returned; an exception of the
    [Exception] hierarchy that is not a [SystemExit] and is an instance of
    a listed class becomes [default]; every other exception propagates
    unchanged. *)
Theorem maybe_spec (f : comp S V) (default : V) (exceptions : list exn_class)
    (s : S) :
  fst (maybe f default exceptions s) = fst (f s) /\
  (forall v, snd (f s) = Ok v -> snd (maybe f default exceptions s) = Ok v) /\
  (forall e, snd (f s) = Raise e ->
     snd (maybe f default exceptions s) =
       if isinstance e Exception && negb (isinstance e SystemExit)
          && existsb (isinstance e) exceptions
       then Ok default else Raise e).
Proof.
  unfold maybe. destruct (f s) as [s' [v|e]]; simpl.
  - split; [done|]. split; [by intros ? [= ->]|]. discriminate.
  - split; [by destruct (isinstance e SystemExit), (isinstance e Exception),
              (existsb (fun t => isinstance e t) exceptions)|].
    split; [discriminate|]. intros e0 He; injection He as <-.
    by destruct (isinstance e SystemExit), (isinstance e Exception),
      (existsb (fun t => isinstance e t) exceptions).
Qed.

(** C3: an instance of [SystemExit] is always re-raised, whatever the
    list of suppressed classes. *)
Theorem maybe_SystemExit_reraised (f : comp S V) (default : V)
    (exceptions : list exn_class) (s : S) (e : exn) :
  snd (f s) = Raise e -> isinstance e SystemExit = true ->
  maybe f default exceptions s = (fst (f s), Raise e).
Proof.
  intros Hf HS. unfold maybe. destruct (f s) as [s' r]. simpl in Hf. subst r.
  rewrite HS. done.
Qed.

(** C10: an exception outside the [Exception] hierarchy propagates, even
    when its class is listed. *)
Theorem maybe_BaseException_propagates (f : comp S V) (default : V)
    (exceptions : list exn_class) (s : S) (e : exn) :
  snd (f s) = Raise e -> isinstance e Exception = false ->
  maybe f default exceptions s = (fst (f s), Raise e).
Proof.
  intros Hf HE. unfold maybe. destruct (f s) as [s' r]. simpl in Hf. subst r.
  rewrite HE. by destruct (isinstance e SystemExit).
Qed.

(** C4 (as amended): [maybe_get f d] is [maybe f d [LookupError]]: it
    returns [d] exactly for instances of [LookupError] that are not also
    instances of [SystemExit], and propagates every other exception. *)
Theorem maybe_get_refines (f_dict : comp S V) (default : V) (s : S) :
  maybe_get f_dict default s = maybe f_dict default [LookupError] s /\
  fst (maybe_get f_dict default s) = fst (f_dict s) /\
  (forall v, snd (f_dict s) = Ok v -> snd (maybe_get f_dict default s) = Ok v) /\
  (forall e, snd (f_dict s) = Raise e ->
     snd (maybe_get f_dict default s) =
       if isinstance e LookupError && negb (isinstance e SystemExit)
       then Ok default else Raise e).
Proof.
  split; [done|]. unfold maybe_get, maybe.
  destruct (f_dict s) as [s' [v|e]]; simpl.
  - split; [done|]. split; [by intros ? [= ->]|]. discriminate.
  - rewrite orb_false_r.
    split; [by destruct (isinstance e SystemExit), (isinstance e Exception),
              (isinstance e LookupError)|].
    split; [discriminate|]. intros e0 He; injection He as <-.
    destruct (isinstance e LookupError) eqn:HL.
    + assert (HE : isinstance e Exception = true)
        by (unfold isinstance in *; by apply LookupError_is_Exception).
      rewrite HE. by destruct (isinstance e SystemExit).
    + by destruct (isinstance e SystemExit), (isinstance e Exception).
Qed.

End MaybeProofs.

(** C2, counterexample: a [KeyboardInterrupt] raised by [f] is an instance
    of the listed class [KeyboardInterrupt], yet [maybe] propagates it
    instead of returning the default. *)
Lemma maybe_listed_KeyboardInterrupt_not_suppressed :
  snd (raising (S:=unit) (V:=Z) kbd_interrupt tt) = Raise kbd_interrupt /\
  existsb (isinstance kbd_interrupt) [KeyboardInterrupt] = true /\
  snd (maybe (S:=unit) (raising kbd_interrupt) 0 [KeyboardInterrupt] tt)
    = Raise kbd_interrupt /\
  snd (maybe (S:=unit) (raising kbd_interrupt) 0 [KeyboardInterrupt] tt) <> Ok 0.
Proof. vm_compute. repeat split; discriminate. Qed.

(** A lookup failure that is also a [SystemExit]:
    [class ExitKeyError(KeyError, SystemExit)]. *)
Definition exit_key_error : exn :=
  mk_exn (UserDefined "ExitKeyError" [KeyError; SystemExit]) "bar".

(** C4, counterexample: [exit_key_error] is a lookup failure, yet
    [maybe_get] re-raises it (through [except SystemExit: raise]) instead
    of returning the default. *)
Lemma maybe_get_exit_key_error_not_suppressed :
  isinstance exit_key_error LookupError = true /\
  snd (maybe_get (S:=unit) (raising exit_key_error) 0 tt) = Raise exit_key_error /\
  snd (maybe_get (S:=unit) (raising exit_key_error) 0 tt) <> Ok 0.
Proof. vm_compute. repeat split. discriminate. Qed.

Lemma maybe_SystemExit_reraised_witness :
  snd (raising (S:=unit) (V:=Z) sys_exit tt) = Raise sys_exit /\
  isinstance sys_exit SystemExit = true /\
  maybe (S:=unit) (raising sys_exit) 0 [SystemExit] tt = (tt, Raise sys_exit).
Proof.
  split; [reflexivity|]. split; [reflexivity|].
  apply (maybe_SystemExit_reraised (raising sys_exit) 0 [SystemExit] tt sys_exit);
    reflexivity.
Defined.

Lemma maybe_BaseException_propagates_witness :
  snd (raising (S:=unit) (V:=Z) kbd_interrupt tt) = Raise kbd_interrupt /\
  isinstance kbd_interrupt Exception = false /\
  maybe (S:=unit) (raising kbd_interrupt) 0 [KeyboardInterrupt; BaseException] tt
    = (tt, Raise kbd_interrupt).
Proof.
  split; [reflexivity|]. split; [reflexivity|].
  apply (maybe_BaseException_propagates (raising kbd_interrupt) 0
           [KeyboardInterrupt; BaseException] tt kbd_interrupt);
    reflexivity.
Defined.

(* ------------------------------------------------------------------ *)
(** ** Lists *)

(** Python list assignment [xs[index] = v]: a negative index counts from
    the end; an index that does not address an element raises
    [IndexError]. *)
Definition list_setitem {A : Type} (xs : list A) (index : Z) (v : A)
    : outcome (list A) :=
  let n := Z.of_nat (length xs) in
  let i := if index <? 0 then index + n else index in
  if (i <? 0) || (n <=? i)
  then Raise (mk_exn IndexError "list assignment index out of range")
  else Ok (<[Z.to_nat i := v]> xs).

(** [new_xs = list(xs); new_xs[index] = new_x; return new_xs] *)
Definition update_list {A : Type} (xs : list A) (index : Z) (new_x : A)
    : outcome (list A) :=
  let new_xs := xs in
  list_setitem new_xs index new_x.

(** The range of [Py_ssize_t] on a 64-bit build. *)
Definition py_ssize_t_min : Z := - 2 ^ 63.
Definition py_ssize_t_max : Z := 2 ^ 63 - 1.

(** [PY_SIZE_MAX / sizeof(PyObject * )]: the largest size [PyList_New]
    accepts. *)
Definition py_list_new_max : Z := (2 ^ 64 - 1) / 8.

(** Python 2 [seq * n] on lists ([sequence_repeat] then [list_repeat]):
    the count is converted with [PyNumber_AsSsize_t(n, PyExc_OverflowError)],
    which raises [OverflowError] outside the [Py_ssize_t] range; a negative
    count is taken as 0 and an empty result is [PyList_New(0)]; otherwise
    [list_repeat] raises [MemoryError] when the size [len(seq) * n] would
    overflow [Py_ssize_t] or exceed what [PyList_New] accepts, and else
    returns [n] copies concatenated. A [malloc] failure below that bound
    depends on the machine's memory and is not modelled. *)
Definition list_mul {A : Type} (l : list A) (n : Z) : outcome (list A) :=
  if (n <? py_ssize_t_min) || (py_ssize_t_max <? n)
  then Raise (mk_exn OverflowError "cannot fit 'long' into an index-sized integer")
  else if n <=? 0 then Ok []
  else if (py_ssize_t_max / n <? Z.of_nat (length l))
          || (py_list_new_max <? Z.of_nat (length l) * n)
  then Raise (mk_exn MemoryError EmptyString)
  else Ok (List.concat (List.repeat l (Z.to_nat n))).

(** [return [x] * n] *)
Definition replicate {A : Type} (n : Z) (x : A) : outcome (list A) :=
  list_mul [x] n.

Lemma ex_update_list_neg : update_list [1; 2; 3] (-1) 42 = Ok [1; 2; 42].
Proof. reflexivity. Qed.
Lemma ex_update_list_empty :
  exists e, update_list (A:=Z) [] 2 42 = Raise e /\ exn_cls e = IndexError.
Proof. eexists. split; reflexivity. Qed.
Lemma ex_update_list_len :
  exists e, update_list [1; 2; 3] 3 42 = Raise e /\ exn_cls e = IndexError.
Proof. eexists. split; reflexivity. Qed.
Lemma ex_update_list_first : update_list [1; 2; 3; 4; 5] 0 42 = Ok [42; 2; 3; 4; 5].
Proof. reflexivity. Qed.
Lemma ex_replicate : replicate (-1) "x"%string = Ok [] /\ replicate 0 42 = Ok [] /\
  replicate 5 1 = Ok [1; 1; 1; 1; 1].
Proof. repeat split. Qed.

(** C5: when [index] resolves to a position [i] of [xs], the result is
    [xs] with position [i] replaced; otherwise [IndexError] is raised
    (in particular for every index on [[]] and for [index = len xs]). *)
Theorem update_list_spec {A : Type} (xs : list A) (index : Z) (v : A) :
  let n := Z.of_nat (length xs) in
  let i := if index <? 0 then index + n else index in
  (0 <= i < n ->
     exists ys, update_list xs index v = Ok ys /\
       length ys = length xs /\
       ys !! Z.to_nat i = Some v /\
       (forall j, j <> Z.to_nat i -> ys !! j = xs !! j)) /\
  (~ (0 <= i < n) ->
     exists e, update_list xs index v = Raise e /\ exn_cls e = IndexError) /\
  (exists e, update_list [] index v = Raise e /\ exn_cls e = IndexError) /\
  (exists e, update_list xs n v = Raise e /\ exn_cls e = IndexError).
Proof.
  intros n i.
  assert (Hout : forall ys k, ~ (0 <= (if k <? 0 then k + Z.of_nat (length ys) else k)
                                      < Z.of_nat (length ys)) ->
             exists e, update_list ys k v = Raise e /\ exn_cls e = IndexError).
  { intros ys k Hk. unfold update_list, list_setitem.
    destruct ((if k <? 0 then k + Z.of_nat (length ys) else k) <? 0) eqn:E1;
      simpl; [by eexists|].
    destruct (Z.of_nat (length ys) <=? (if k <? 0 then k + Z.of_nat (length ys) else k))
      eqn:E2; [by eexists|].
    exfalso. apply Hk. rewrite Z.ltb_ge in E1. rewrite Z.leb_gt in E2. lia. }
  split; [|split; [|split]].
  - intros Hi. unfold update_list, list_setitem. fold n. fold i.
    replace ((i <? 0) || (n <=? i)) with false
      by (symmetry; apply orb_false_iff; split; [apply Z.ltb_ge|apply Z.leb_gt]; lia).
    eexists. split; [reflexivity|].
    split; [apply length_insert|].
    split.
    + apply list_lookup_insert_eq. lia.
    + intros j Hj. apply list_lookup_insert_ne. done.
  - apply Hout.
  - apply Hout. simpl. destruct (index <? 0); lia.
  - apply Hout. fold n. replace (n <? 0) with false
      by (symmetry; apply Z.ltb_ge; lia). lia.
Qed.

Lemma concat_repeat_singleton {A : Type} (x : A) (k : nat) :
  List.concat (List.repeat [x] k) = List.repeat x k.
Proof. induction k as [|k IH]; simpl; [done|]. by rewrite IH. Qed.

Lemma py_list_new_max_value : py_list_new_max = 2 ^ 61 - 1.
Proof. reflexivity. Qed.

(** [[x] * n] for a count up to [py_list_new_max]: [n] copies of [x]. *)
Lemma replicate_in_range {A : Type} (n : Z) (x : A) :
  py_ssize_t_min <= n <= py_list_new_max ->
  replicate n x = Ok (List.repeat x (Z.to_nat n)).
Proof.
  rewrite py_list_new_max_value. intros Hn. unfold replicate, list_mul.
  replace ((n <? py_ssize_t_min) || (py_ssize_t_max <? n)) with false
    by (symmetry; apply orb_false_iff; split; apply Z.ltb_ge;
        unfold py_ssize_t_max in *; lia).
  destruct (n <=? 0) eqn:E.
  - rewrite Z.leb_le in E. by replace (Z.to_nat n) with 0%nat by lia.
  - rewrite Z.leb_gt in E. simpl length.
    assert (H1 : 1 <= py_ssize_t_max / n)
      by (apply Z.div_le_lower_bound; unfold py_ssize_t_max; lia).
    replace ((py_ssize_t_max / n <? Z.of_nat 1)
             || (py_list_new_max <? Z.of_nat 1 * n)) with false
      by (symmetry; apply orb_false_iff; rewrite py_list_new_max_value;
          split; apply Z.ltb_ge; lia).
    by rewrite concat_repeat_singleton.
Qed.

Lemma ex_replicate_limits :
  replicate (2 ^ 61 - 1) tt <> Raise (mk_exn MemoryError EmptyString) /\
  replicate (2 ^ 61) tt = Raise (mk_exn MemoryError EmptyString) /\
  replicate (2 ^ 63) tt =
    Raise (mk_exn OverflowError "cannot fit 'long' into an index-sized integer").
Proof.
  split; [|split; reflexivity].
  rewrite (replicate_in_range (2 ^ 61 - 1) tt)
    by (rewrite py_list_new_max_value; unfold py_ssize_t_min; lia).
  discriminate.
Qed.



(* ------------------------------------------------------------------ *)
(** ** [transpose]: Python 2 [zip( *m)] *)

Section Zip.
Context {A : Type}.

(** One step of [zip]: the next item of every argument, or [None] as soon
    as one of them is exhausted. *)
Fixpoint uncons_all (seqs : list (list A)) : option (list (A * list A)) :=
  match seqs with
  | [] => Some []
  | s :: rest =>
      match s with
      | [] => None
      | x :: s' =>
          match uncons_all rest with
          | Some ps => Some ((x, s') :: ps)
          | None => None
          end
      end
  end.

(** The [zip] loop; [fuel] bounds the number of rounds (the loop cannot
    run longer than its first argument). *)
Fixpoint zip_fuel (fuel : nat) (seqs : list (list A)) : list (list A) :=
  match fuel with
  | O => []
  | S k =>
      match uncons_all seqs with
      | Some ps => ps.*1 :: zip_fuel k ps.*2
      | None => []
      end
  end.

(** [zip( *seqs)]: [zip()] is [[]]; tuples are modelled as lists. *)
Definition py_zip (seqs : list (list A)) : list (list A) :=
  match seqs with
  | [] => []
  | s :: _ => zip_fuel (length s) seqs
  end.

(** [return zip( *m)] *)
Definition transpose (m : list (list A)) : list (list A) := py_zip m.

(** The length of the shortest row. *)
Definition min_len (m : list (list A)) : nat :=
  match m with
  | [] => 0
  | r :: rs => fold_right Nat.min (length r) (map length rs)
  end.

End Zip.

Lemma ex_transpose :
  transpose [[1; 2; 3]; [4; 5; 6]] = [[1; 4]; [2; 5]; [3; 6]].
Proof. reflexivity. Qed.

Lemma ex_transpose_ragged :
  transpose [[1; 2; 3]; [4]; [5; 6]] = [[1; 4; 5]].
Proof. reflexivity. Qed.

Section ZipProofs.
Context {A : Type}.
Local Open Scope nat_scope.

Lemma uncons_all_lookup (seqs : list (list A)) ps :
  uncons_all seqs = Some ps ->
  forall i, seqs !! i = (fun p => p.1 :: p.2) <$> ps !! i.
Proof.
  revert ps. induction seqs as [|s rest IH]; simpl; intros ps Hps.
  - injection Hps as <-. done.
  - destruct s as [|x s']; [discriminate|].
    destruct (uncons_all rest) as [ps'|] eqn:E; [|discriminate].
    injection Hps as <-. intros [|i]; simpl; [done|]. by apply IH.
Qed.

Lemma uncons_all_None (seqs : list (list A)) :
  uncons_all seqs = None -> exists i, seqs !! i = Some [].
Proof.
  induction seqs as [|s rest IH]; simpl; [discriminate|].
  destruct s as [|x s']; [by exists 0|].
  destruct (uncons_all rest); [discriminate|].
  intros _. destruct IH as [i Hi]; [done|]. by exists (S i).
Qed.

Lemma zip_fuel_lookup (k : nat) (seqs : list (list A)) (j : nat) col :
  zip_fuel k seqs !! j = Some col ->
  forall i, col !! i = seqs !! i ≫= (fun row => row !! j).
Proof.
  revert seqs j col. induction k as [|k IH]; simpl; intros seqs j col H i;
    [discriminate|].
  destruct (uncons_all seqs) as [ps|] eqn:E; [|discriminate].
  rewrite (uncons_all_lookup _ _ E i).
  destruct j as [|j]; simpl in H.
  - injection H as <-. rewrite list_lookup_fmap. by destruct (ps !! i).
  - rewrite (IH _ _ _ H i), list_lookup_fmap. by destruct (ps !! i).
Qed.

Lemma zip_fuel_length (k : nat) (seqs : list (list A)) (j : nat) :
  j < length (zip_fuel k seqs) <->
  j < k /\ (forall i row, seqs !! i = Some row -> j < length row).
Proof.
  revert seqs j. induction k as [|k IH]; simpl; intros seqs j; [lia|].
  destruct (uncons_all seqs) as [ps|] eqn:E.
  - pose proof (uncons_all_lookup _ _ E) as Hl.
    simpl. destruct j as [|j].
    + split; [|lia]. intros _. split; [lia|].
      intros i row Hrow. rewrite Hl in Hrow.
      destruct (ps !! i); simpl in Hrow; [|discriminate].
      injection Hrow as <-. simpl. lia.
    + rewrite <- Nat.succ_lt_mono, IH. split.
      * intros [Hk Hall]. split; [lia|]. intros i row Hrow. rewrite Hl in Hrow.
        destruct (ps !! i) as [p|] eqn:Ep; simpl in Hrow; [|discriminate].
        injection Hrow as <-. simpl.
        assert (j < length p.2); [|lia].
        apply (Hall i). rewrite list_lookup_fmap, Ep. done.
      * intros [Hk Hall]. split; [lia|]. intros i row Hrow.
        rewrite list_lookup_fmap in Hrow.
        destruct (ps !! i) as [p|] eqn:Ep; simpl in Hrow; [|discriminate].
        injection Hrow as <-.
        specialize (Hall i (p.1 :: p.2)). rewrite Hl, Ep in Hall. simpl in Hall.
        specialize (Hall eq_refl). lia.
  - destruct (uncons_all_None _ E) as [i Hi]. simpl. split; [lia|].
    intros [_ Hall]. specialize (Hall _ _ Hi). simpl in Hall. lia.
Qed.

Lemma min_len_lt (r : list A) (rs : list (list A)) (j : nat) :
  j < fold_right Nat.min (length r) (map length rs) <->
  j < length r /\ (forall i row, rs !! i = Some row -> j < length row).
Proof.
  induction rs as [|s rs IH]; simpl.
  - split; [intros; split; [done|]; intros ??; discriminate|tauto].
  - rewrite Nat.min_glb_lt_iff, IH. split.
    + intros [Hs [Hr Hall]]. split; [done|]. intros [|i] row Hrow; simpl in Hrow.
      * by injection Hrow as <-.
      * by apply (Hall i).
    + intros [Hr Hall]. split; [by apply (Hall 0)|]. split; [done|].
      intros i row Hrow. by apply (Hall (S i)).
Qed.

End ZipProofs.

Section TransposeProofs.
Context {A : Type}.
Local Open Scope nat_scope.

Lemma nat_eq_by_lt (n M : nat) : (forall j, j < n <-> j < M) -> n = M.
Proof.
  intros H. destruct (Nat.lt_trichotomy n M) as [Hlt|[Heq|Hgt]]; [|done|].
  - apply H in Hlt. lia.
  - apply H in Hgt. lia.
Qed.

(** C8: [transpose m] has as many columns as the shortest row of [m], and
    entry [i] of column [j] is entry [j] of row [i] (every column has
    exactly one entry per row). *)
Theorem transpose_spec (m : list (list A)) :
  length (transpose m) = min_len m /\
  (forall j col, transpose m !! j = Some col ->
     forall i, col !! i = m !! i ≫= (fun row => row !! j)).
Proof.
  destruct m as [|r rs].
  - split; [done|]. intros j col H. discriminate.
  - split.
    + apply nat_eq_by_lt. intros j. unfold transpose, py_zip, min_len.
      rewrite zip_fuel_length, min_len_lt. split.
      * intros [Hr Hall]. split; [done|]. intros i row Hrow. by apply (Hall (S i)).
      * intros [Hr Hall]. split; [done|]. intros [|i] row Hrow; simpl in Hrow.
        -- by injection Hrow as <-.
        -- by apply (Hall i).
    + intros j col H. by apply (zip_fuel_lookup _ _ _ _ H).
Qed.

End TransposeProofs.

(* ------------------------------------------------------------------ *)
(** ** [zipWith] and [all_same] over Python values *)

Section PyValues.
(** [A] is the type of Python values and [py_None] is [None]. *)
Context {A : Type} (py_None : A).

(** [map] over a list, threading the state and stopping at the first
    exception. *)
Fixpoint map_state {S B C : Type} (g : B -> comp S C) (l : list B)
    : comp S (list C) :=
  fun s =>
    match l with
    | [] => (s, Ok [])
    | b :: l' =>
        let (s1, r) := g b s in
        match r with
        | Raise e => (s1, Raise e)
        | Ok c =>
            let (s2, r2) := map_state g l' s1 in
            match r2 with
            | Ok cs => (s2, Ok (c :: cs))
            | Raise e => (s2, Raise e)
            end
        end
    end.

(** Python 2 [map] with two sequences pads the shorter one with [None]. *)
Fixpoint zip_longest (xs ys : list A) : list (A * A) :=
  match xs with
  | [] => map (fun y => (py_None, y)) ys
  | x :: xs' =>
      match ys with
      | [] => (x, py_None) :: zip_longest xs' []
      | y :: ys' => (x, y) :: zip_longest xs' ys'
      end
  end.

(** Python 2 [map(f, xs, ys)]: eager, returns the list of results. *)
Definition py_map2 {S : Type} (f : A -> A -> comp S A) (xs ys : list A)
    : comp S (list A) :=
  map_state (fun '(x, y) => f x y) (zip_longest xs ys).

(** [def zipWith(f, xs, ys): map(f, xs, ys)]: the body is an expression
    statement, so the function returns [None]. *)
Definition zipWith {S : Type} (f : A -> A -> comp S A) (xs ys : list A)
    : comp S A :=
  fun s =>
    let (s', r) := py_map2 f xs ys s in
    match r with
    | Ok _ => (s', Ok py_None)
    | Raise e => (s', Raise e)
    end.

(** [itemsIter.next()] on a list iterator (the state is what is left). *)
Definition iter_next : comp (list A) A :=
  fun it =>
    match it with
    | [] => ([], Raise (mk_exn StopIteration ""))
    | x :: rest => (rest, Ok x)
    end.

(** [itemsIter = iter(items)
     i0 = maybe(lambda: itemsIter.next(), exceptions=[StopIteration])
     return all(x == i0 for x in itemsIter)]
    where [py_eq] is Python's [==]. *)
Definition all_same (py_eq : A -> A -> bool) (items : list A) : outcome bool :=
  let itemsIter := items in
  let (itemsIter', r) := maybe iter_next py_None [StopIteration] itemsIter in
  match r with
  | Ok i0 => Ok (forallb (fun x => py_eq x i0) itemsIter')
  | Raise e => Raise e
  end.

End PyValues.

(** A few Python 2 values for the doctests: in Python 2 [True == 1] and
    [False == 0]. *)
Inductive pyval : Type :=
  | PNone
  | PInt (z : Z)
  | PBool (b : bool).

Definition bool_to_Z (b : bool) : Z := if b then 1 else 0.

Definition pyval_eqb (v w : pyval) : bool :=
  match v, w with
  | PNone, PNone => true
  | PInt a, PInt b => Z.eqb a b
  | PBool a, PBool b => Bool.eqb a b
  | PInt a, PBool b | PBool b, PInt a => Z.eqb a (bool_to_Z b)
  | _, _ => false
  end.

(** Adds two integers and records the call in a log. *)
Definition logged_add (x y : pyval) : comp (list pyval) pyval :=
  fun log =>
    match x, y with
    | PInt a, PInt b => (log ++ [PInt (a + b)], Ok (PInt (a + b)))
    | _, _ => (log, Raise (mk_exn TypeError "unsupported operand type(s) for +"))
    end.

Lemma ex_zipWith_logged :
  zipWith PNone logged_add [PInt 1; PInt 2] [PInt 10; PInt 20] []
  = ([PInt 11; PInt 22], Ok PNone).
Proof. reflexivity. Qed.

Lemma ex_all_same :
  all_same PNone pyval_eqb [] = Ok true /\
  all_same PNone pyval_eqb [PInt 42] = Ok true /\
  all_same PNone pyval_eqb [PBool true; PBool false; PBool true] = Ok false /\
  all_same PNone pyval_eqb [PBool true; PBool true; PBool true] = Ok true /\
  all_same PNone pyval_eqb [PNone; PNone; PNone] = Ok true /\
  all_same PNone pyval_eqb [PNone; PInt 42; PBool true] = Ok false.
Proof. repeat split. Qed.

Lemma pyval_eqb_refl (v : pyval) : pyval_eqb v v = true.
Proof. destruct v as [|z|b]; simpl; [done|apply Z.eqb_refl|apply eqb_reflx]. Qed.

Section PyValueProofs.
Context {A : Type} (py_None : A).

Lemma map_state_total {S B C : Type} (g : B -> comp S C) :
  (forall b s, exists c, snd (g b s) = Ok c) ->
  forall l s, exists cs, snd (map_state g l s) = Ok cs.
Proof.
  intros Hg l. induction l as [|b l IH]; intros s; simpl; [by eexists|].
  destruct (Hg b s) as [c Hc]. destruct (g b s) as [s1 r]. simpl in Hc. subst r.
  destruct (IH s1) as [cs Hcs]. destruct (map_state g l s1) as [s2 r2].
  simpl in Hcs. subst r2. by eexists.
Qed.

(** C6: [zipWith] keeps the effects of the calls of [f] and discards their
    results: a normal return is always [None], and when no call of [f]
    raises, [zipWith] returns [None]. *)
Theorem zipWith_returns_None {S : Type} (f : A -> A -> comp S A)
    (xs ys : list A) (s : S) :
  fst (zipWith py_None f xs ys s) = fst (py_map2 py_None f xs ys s) /\
  (forall v, snd (zipWith py_None f xs ys s) = Ok v -> v = py_None) /\
  ((forall x y s', exists v, snd (f x y s') = Ok v) ->
     snd (zipWith py_None f xs ys s) = Ok py_None).
Proof.
  unfold zipWith.
  split; [by destruct (py_map2 py_None f xs ys s) as [s' [|]]|].
  split.
  - destruct (py_map2 py_None f xs ys s) as [s' [|]]; simpl;
      [by intros ? [= <-]|discriminate].
  - intros Hf. destruct (map_state_total (fun '(x, y) => f x y)
                           ltac:(intros [x y] s'; apply Hf)
                           (zip_longest py_None xs ys) s) as [cs Hcs].
    unfold py_map2. destruct (map_state _ _ s) as [s' r]. simpl in Hcs. by subst r.
Qed.

(** C9: [all_same] is true on [[]] and on one-element lists; on a longer
    list it is true iff every element after the first compares equal to the
    first one ([x == i0]); the first element is never compared with
    itself. *)
Theorem all_same_spec (py_eq : A -> A -> bool) (items : list A) :
  all_same py_None py_eq items =
  Ok (match items with
      | [] => true
      | x0 :: rest => forallb (fun x => py_eq x x0) rest
      end).
Proof.
  destruct items as [|x0 rest]; [reflexivity|].
  unfold all_same, maybe, iter_next. by simpl.
Qed.

End PyValueProofs.

(** Objects whose [__eq__] is [self is not other]: two distinct objects
    compare equal, an object compares unequal to itself. *)
Inductive obj := ONone | OObj (ident : nat).

Definition not_self_eq (a b : obj) : bool :=
  match a, b with
  | ONone, ONone => true
  | OObj i, OObj j => negb (Nat.eqb i j)
  | _, _ => false
  end.

(** C9, counterexample: [all_same([a, b])] for two such objects is
    [True] ([b == a] holds), although the first element does not compare
    equal to itself. *)
Lemma all_same_first_not_self_equal :
  all_same ONone not_self_eq [OObj 0; OObj 1] = Ok true /\
  forallb (fun x => not_self_eq x (OObj 0)) [OObj 0; OObj 1] = false.
Proof. split; reflexivity. Qed.

(* ------------------------------------------------------------------ *)
(** ** The rest of the module: [safe_reverse], [concat], [all_nones],
       [repeat] *)

(** [new_xs = list(xs); new_xs.reverse(); return new_xs] *)
Definition safe_reverse {A : Type} (xs : list A) : list A :=
  let new_xs := xs in
  reverse new_xs.

(** [return reduce(lambda x1, x2: x1 + x2, xss, [])] *)
Definition concat {A : Type} (xss : list (list A)) : list A :=
  fold_left (fun x1 x2 => x1 ++ x2) xss [].

(** [return all(x == None for x in xs)] *)
Definition all_nones {A : Type} (py_None : A) (py_eq : A -> A -> bool)
    (xs : list A) : bool :=
  forallb (fun x => py_eq x py_None) xs.

(** A Python generator that never returns. *)
CoInductive generator (A : Type) : Type :=
  | Yield (x : A) (rest : generator A).
Arguments Yield {A} x rest.

(** [while True: yield n] *)
CoFixpoint repeat {A : Type} (n : A) : generator A := Yield n (repeat n).

(** [g.next()] *)
Definition gen_next {A : Type} (g : generator A) : A * generator A :=
  match g with Yield x rest => (x, rest) end.

(** The values of [k] successive calls of [g.next()]. *)
Fixpoint gen_take {A : Type} (k : nat) (g : generator A) : list A :=
  match k with
  | O => []
  | S k' => let (x, g') := gen_next g in x :: gen_take k' g'
  end.

Lemma ex_safe_reverse : safe_reverse [1; 2; 3] = [3; 2; 1].
Proof. reflexivity. Qed.
Lemma ex_concat :
  concat [] = @nil Z /\ concat [[]; []; []] = @nil Z /\
  concat [[1; 2; 3]; [10; 11]; [42]] = [1; 2; 3; 10; 11; 42].
Proof. repeat split. Qed.
Lemma ex_all_nones :
  all_nones PNone pyval_eqb [] = true /\
  all_nones PNone pyval_eqb [PNone; PNone; PNone] = true /\
  all_nones PNone pyval_eqb [PInt 1; PInt 2; PInt 3] = false /\
  all_nones PNone pyval_eqb [PNone; PInt 1; PNone] = false.
Proof. repeat split. Qed.
Lemma ex_repeat : gen_take 2 (repeat 42) = [42; 42].
Proof. reflexivity. Qed.

(* ------------------------------------------------------------------ *)
(** ** Helper facts shared by the properties below *)

Lemma concat_fold_acc {A : Type} (xss : list (list A)) (acc : list A) :
  fold_left (fun x1 x2 => x1 ++ x2) xss acc = acc ++ List.concat xss.
Proof.
  revert acc. induction xss as [|xs xss IH]; intros acc; simpl.
  - by rewrite app_nil_r.
  - rewrite IH. by rewrite app_assoc.
Qed.

Lemma concat_as_list_concat {A : Type} (xss : list (list A)) :
  concat xss = List.concat xss.
Proof. unfold concat. by rewrite concat_fold_acc. Qed.


Lemma replicate_Ok {A : Type} (n : Z) (x : A) (l : list A) :
  replicate n x = Ok l -> l = List.repeat x (Z.to_nat n).
Proof.
  unfold replicate, list_mul.
  destruct (_ || _); [discriminate|].
  destruct (n <=? 0) eqn:E.
  - intros [= <-]. rewrite Z.leb_le in E. by replace (Z.to_nat n) with 0%nat by lia.
  - destruct (_ || _); [discriminate|].
    intros [= <-]. by rewrite concat_repeat_singleton.
Qed.

Lemma all_same_cons_eq {A : Type} (py_None : A) (py_eq : A -> A -> bool)
    (x0 : A) (rest : list A) :
  all_same py_None py_eq (x0 :: rest) = Ok (forallb (fun x => py_eq x x0) rest).
Proof. reflexivity. Qed.

Lemma update_list_ok_length {A : Type} (xs ys : list A) (index : Z) (v : A) :
  update_list xs index v = Ok ys -> length ys = length xs.
Proof.
  unfold update_list, list_setitem.
  destruct (_ || _); [discriminate|]. intros [= <-]. apply length_insert.
Qed.

Section UnionWithMore.
Context {K : Type} `{Countable K} {V : Type}.

Lemma union_with_lookup_cases (mempty : V) (mappend : V -> V -> V)
    (d1 d2 : gmap K V) (k : K) :
  union_with mempty mappend d1 d2 !! k =
  match d1 !! k, d2 !! k with
  | None, None => None
  | o1, o2 => Some (mappend (default mempty o1) (default mempty o2))
  end.
Proof.
  unfold union_with.
  set (X := list_to_set (dict_keys d1 ++ dict_keys d2) : gset K).
  assert (HX : k ∈ X <-> is_Some (d1 !! k) \/ is_Some (d2 !! k)).
  { unfold X. rewrite elem_of_list_to_set, elem_of_app, !elem_of_dict_keys. done. }
  destruct (decide (k ∈ X)) as [Hk|Hk].
  - rewrite (elem_of_list_to_map_1 _ k
      (mappend (dict_get d1 k mempty) (dict_get d2 k mempty))).
    + apply HX in Hk. unfold dict_get.
      destruct (d1 !! k), (d2 !! k); simpl; [done..|].
      destruct Hk as [[? ?]|[? ?]]; discriminate.
    + rewrite fst_fmap_pair. apply NoDup_elements.
    + apply list_elem_of_fmap. exists k. split; [done|]. by apply elem_of_elements.
  - rewrite not_elem_of_list_to_map_1.
    + rewrite HX in Hk. destruct (d1 !! k), (d2 !! k); [..|done];
        exfalso; apply Hk; eauto.
    + rewrite fst_fmap_pair. by rewrite elem_of_elements.
Qed.

(** The keys of [union_with mempty mappend d1 d2] are the keys of [d1]
    together with the keys of [d2]. *)
Theorem union_with_dom (mempty : V) (mappend : V -> V -> V) (d1 d2 : gmap K V) :
  dom (union_with mempty mappend d1 d2) = dom d1 ∪ dom d2.
Proof.
  apply set_eq. intros k.
  rewrite elem_of_union, !elem_of_dom, union_with_lookup_cases.
  destruct (d1 !! k), (d2 !! k); split; eauto;
    intros [[? ?]|[? ?]]; discriminate.
Qed.

(** Merging with an empty dictionary applies [mappend] against [mempty] on
    the side of the empty dictionary, to every value of the other. *)
Theorem union_with_empty (mempty : V) (mappend : V -> V -> V) (d : gmap K V) :
  union_with mempty mappend d ∅ = (fun v => mappend v mempty) <$> d /\
  union_with mempty mappend ∅ d = (fun v => mappend mempty v) <$> d.
Proof.
  split; apply map_eq; intros k;
    rewrite union_with_lookup_cases, lookup_fmap, lookup_empty;
    by destruct (d !! k).
Qed.

(** With a commutative [mappend], the order of the two dictionaries does
    not matter. *)
Theorem union_with_comm (mempty : V) (mappend : V -> V -> V)
    (Hcomm : forall a b, mappend a b = mappend b a) (d1 d2 : gmap K V) :
  union_with mempty mappend d1 d2 = union_with mempty mappend d2 d1.
Proof.
  apply map_eq. intros k. rewrite !union_with_lookup_cases.
  destruct (d1 !! k), (d2 !! k); simpl; try rewrite Hcomm; done.
Qed.

End UnionWithMore.

Lemma union_with_comm_witness :
  (forall a b : Z, a + b = b + a) /\
  union_with (K:=string) 0 Z.add (<["a":=3]> (<["d":=0]> ∅)) (<["a":=42]> (<["c":=4]> ∅))
  = union_with 0 Z.add (<["a":=42]> (<["c":=4]> ∅)) (<["a":=3]> (<["d":=0]> ∅)).
Proof.
  split; [intros; lia|].
  apply (union_with_comm 0 Z.add ltac:(intros; lia)).
Defined.

(** With an empty list of classes, [maybe] behaves exactly as [f]: every
    exception propagates. *)
Theorem maybe_no_exceptions {S V : Type} (f : comp S V) (default : V) (s : S) :
  maybe f default [] s = f s.
Proof.
  unfold maybe. destruct (f s) as [s' [v|e]]; [done|].
  by destruct (isinstance e SystemExit), (isinstance e Exception).
Qed.

(** A negative index [-len xs <= index < 0] updates the same position as
    [index + len xs]. *)
Theorem update_list_negative_index {A : Type} (xs : list A) (index : Z) (v : A) :
  - Z.of_nat (length xs) <= index < 0 ->
  update_list xs index v = update_list xs (index + Z.of_nat (length xs)) v.
Proof.
  intros Hi. unfold update_list, list_setitem. cbv zeta.
  rewrite (proj2 (Z.ltb_lt index 0)) by lia. cbv beta iota.
  rewrite !(proj2 (Z.ltb_ge (index + Z.of_nat (length xs)) 0)) by lia.
  cbv beta iota. cbn [orb]. reflexivity.
Qed.

Lemma update_list_negative_index_witness :
  - Z.of_nat (length [1; 2; 3]) <= -1 < 0 /\
  update_list [1; 2; 3] (-1) 42 = update_list [1; 2; 3] (-1 + 3) 42.
Proof.
  split; [simpl; lia|].
  apply (update_list_negative_index [1; 2; 3] (-1) 42). simpl; lia.
Defined.

(** Updating the same index twice keeps only the second value. *)
Theorem update_list_twice {A : Type} (xs ys : list A) (index : Z) (a b : A) :
  update_list xs index a = Ok ys ->
  update_list ys index b = update_list xs index b.
Proof.
  intros Hys. pose proof (update_list_ok_length _ _ _ _ Hys) as Hlen.
  revert Hys. unfold update_list, list_setitem. rewrite Hlen.
  destruct (_ || _); [discriminate|]. intros [= <-].
  by rewrite list_insert_insert_eq.
Qed.

Lemma update_list_twice_witness :
  update_list [1; 2; 3] 0 7 = Ok [7; 2; 3] /\
  update_list [7; 2; 3] 0 9 = update_list [1; 2; 3] 0 9.
Proof.
  split; [reflexivity|].
  apply (update_list_twice [1; 2; 3] [7; 2; 3] 0 7 9). reflexivity.
Defined.

(** [safe_reverse] is an involution; it keeps the length, and position [i]
    of the result holds position [len xs - 1 - i] of [xs]. *)
Theorem safe_reverse_spec {A : Type} (xs : list A) :
  safe_reverse (safe_reverse xs) = xs /\
  length (safe_reverse xs) = length xs /\
  (forall i, (i < length xs)%nat -> safe_reverse xs !! i = xs !! (length xs - S i)%nat).
Proof.
  unfold safe_reverse. split; [apply reverse_involutive|].
  split; [apply length_reverse|]. intros i Hi. by apply reverse_lookup.
Qed.

(** [concat] has the summed length of its arguments and turns appending
    lists of lists into appending lists. *)
Theorem concat_length_app {A : Type} (xss yss : list (list A)) :
  length (concat xss) = sum_list_with length xss /\
  concat (xss ++ yss) = concat xss ++ concat yss.
Proof.
  rewrite !concat_as_list_concat. split.
  - induction xss as [|xs xss IH]; simpl; [done|]. by rewrite length_app, IH.
  - apply concat_app.
Qed.

(** Reversing a concatenation reverses the order of the pieces and each
    piece. *)
Theorem safe_reverse_concat {A : Type} (xss : list (list A)) :
  safe_reverse (concat xss) = concat (safe_reverse (map safe_reverse xss)).
Proof.
  unfold safe_reverse. rewrite !concat_as_list_concat.
  induction xss as [|xs xss IH]; simpl; [done|].
  rewrite reverse_app, IH, reverse_cons, concat_app. simpl. by rewrite app_nil_r.
Qed.



(** [all_same] on a list that starts with [None] is [all_nones] of the
    rest. *)
Theorem all_same_None_head {A : Type} (py_None : A) (py_eq : A -> A -> bool)
    (xs : list A) :
  all_same py_None py_eq (py_None :: xs) = Ok (all_nones py_None py_eq xs).
Proof. reflexivity. Qed.

(** When [x == x] holds, [all_same] is true on every list that
    [replicate n x] returns. *)
Theorem all_same_replicate {A : Type} (py_None : A) (py_eq : A -> A -> bool)
    (n : Z) (x : A) (l : list A) (Hx : py_eq x x = true) :
  replicate n x = Ok l -> all_same py_None py_eq l = Ok true.
Proof.
  intros Hl. apply replicate_Ok in Hl. subst l.
  destruct (Z.to_nat n) as [|k]; [reflexivity|].
  simpl. rewrite all_same_cons_eq. f_equal.
  apply forallb_forall. intros y Hy. apply repeat_spec in Hy. by subst y.
Qed.

Lemma all_same_replicate_witness :
  pyval_eqb (PInt 5) (PInt 5) = true /\
  replicate 3 (PInt 5) = Ok [PInt 5; PInt 5; PInt 5] /\
  all_same PNone pyval_eqb [PInt 5; PInt 5; PInt 5] = Ok true.
Proof.
  split; [reflexivity|]. split; [reflexivity|].
  exact (all_same_replicate PNone pyval_eqb 3 (PInt 5)
           [PInt 5; PInt 5; PInt 5] eq_refl eq_refl).
Defined.




(* ------------------------------------------------------------------ *)
(** ** [safe_shuffle] and Python 2.7's [random.shuffle] *)

Section Shuffle.
Context {A G : Type}.
(** [randbelow i] stands for the draw [int(random() * (i+1))] of
    [random.shuffle]; [G] is the state of the module's random generator. *)
Context (randbelow : nat -> G -> G * nat).

(** [x[i], x[j] = x[j], x[i]]: the right side is read first, then [x[i]]
    and [x[j]] are assigned in that order. *)
Definition list_swap (x : list A) (i j : nat) : outcome (list A) :=
  match x !! j, x !! i with
  | Some xj, Some xi => Ok (<[j:=xi]> (<[i:=xj]> x))
  | _, _ => Raise (mk_exn IndexError "list index out of range")
  end.

Fixpoint shuffle_loop (is : list nat) (x : list A) : comp G (list A) :=
  fun g =>
    match is with
    | [] => (g, Ok x)
    | i :: is' =>
        let (g', j) := randbelow i g in
        match list_swap x i j with
        | Ok x' => shuffle_loop is' x' g'
        | Raise e => (g', Raise e)
        end
    end.

(** [for i in reversed(xrange(1, len(x))):
         j = int(random() * (i+1))
         x[i], x[j] = x[j], x[i]] *)
Definition random_shuffle (x : list A) : comp G (list A) :=
  shuffle_loop (rev (seq 1 (length x - 1))) x.

(** [new_xs = list(xs); random.shuffle(new_xs); return new_xs] *)
Definition safe_shuffle (xs : list A) : comp G (list A) :=
  let new_xs := xs in
  random_shuffle new_xs.

End Shuffle.

(** A small linear congruential generator, for the examples. *)
Definition lcg_randbelow (i : nat) (g : nat) : nat * nat :=
  (((g * 5 + 3) mod 16)%nat, (g mod (S i))%nat).

Lemma ex_safe_shuffle :
  safe_shuffle lcg_randbelow [1; 2; 3; 4] 7%nat = (8%nat, Ok [3; 2; 1; 4]).
Proof. reflexivity. Qed.

Section ShuffleProofs.
Context {A G : Type}.

Lemma swap_Permutation (l : list A) (i j : nat) (a b : A) :
  (j < i)%nat -> l !! j = Some a -> l !! i = Some b ->
  <[j:=b]> (<[i:=a]> l) ≡ₚ l.
Proof.
  intros Hji Ha Hb. pose proof (lookup_lt_Some _ _ _ Hb) as Hi.
  assert (Hta : take i l !! j = Some a).
  { rewrite lookup_take. by rewrite decide_True by lia. }
  assert (Hlt : length (take i l) = i) by (rewrite length_take; lia).
  set (P := take j l). set (M := drop (S j) (take i l)). set (R := drop (S i) l).
  assert (E1 : l = P ++ a :: M ++ b :: R).
  { rewrite <- (take_drop i l) at 1. rewrite (drop_S l b i Hb).
    rewrite <- (take_drop j (take i l)), (drop_S (take i l) a j Hta).
    rewrite take_take, Nat.min_l by lia. by rewrite <- app_assoc. }
  assert (E2 : <[j:=b]> (<[i:=a]> l) = P ++ b :: M ++ a :: R).
  { rewrite (insert_take_drop l i a) by lia.
    rewrite insert_take_drop by (rewrite length_app; simpl; lia).
    rewrite take_app_le by lia. rewrite take_take, Nat.min_l by lia.
    rewrite drop_app_le by lia. done. }
  rewrite E2. rewrite E1 at 1.
  apply Permutation_app_head.
  rewrite <- !Permutation_middle. apply Permutation_swap.
Qed.

Lemma list_swap_Permutation (x : list A) (i j : nat) :
  (i < length x)%nat -> (j <= i)%nat ->
  exists x', list_swap x i j = Ok x' /\ x' ≡ₚ x.
Proof.
  intros Hi Hj. unfold list_swap.
  destruct (lookup_lt_is_Some_2 x i Hi) as [b Hb].
  destruct (lookup_lt_is_Some_2 x j ltac:(lia)) as [a Ha].
  rewrite Ha, Hb. eexists. split; [reflexivity|].
  destruct (decide (j = i)) as [->|Hne].
  - rewrite Hb in Ha. injection Ha as ->.
    rewrite list_insert_insert_eq, list_insert_id by done. done.
  - apply swap_Permutation; [lia|done|done].
Qed.

Lemma shuffle_loop_Permutation (randbelow : nat -> G -> G * nat)
    (Hbelow : forall i g, (snd (randbelow i g) <= i)%nat)
    (is : list nat) (x : list A) (g : G) :
  (forall i, In i is -> (i < length x)%nat) ->
  exists ys, snd (shuffle_loop randbelow is x g) = Ok ys /\ ys ≡ₚ x.
Proof.
  revert x g. induction is as [|i is IH]; intros x g Hin; simpl.
  - by eexists.
  - pose proof (Hbelow i g) as Hj. destruct (randbelow i g) as [g' j]. simpl in Hj.
    destruct (list_swap_Permutation x i j) as [x' [Hsw Hperm]];
      [apply Hin; by left|done|].
    rewrite Hsw.
    destruct (IH x' g') as [ys [Hys Hperm']].
    + intros k Hk. rewrite (Permutation_length Hperm). apply Hin. by right.
    + exists ys. split; [done|]. by rewrite Hperm'.
Qed.

(** If every draw [int(random() * (i+1))] lies in [0..i], [safe_shuffle]
    returns normally, and its result is a permutation of its argument
    (same elements, same multiplicities, same length). *)
Theorem safe_shuffle_Permutation (randbelow : nat -> G -> G * nat)
    (Hbelow : forall i g, (snd (randbelow i g) <= i)%nat) (xs : list A) (g : G) :
  exists ys, snd (safe_shuffle randbelow xs g) = Ok ys /\ ys ≡ₚ xs.
Proof.
  apply shuffle_loop_Permutation; [done|].
  intros i Hi. apply in_rev, in_seq in Hi. lia.
Qed.

End ShuffleProofs.

Lemma lcg_randbelow_below (i g : nat) : (snd (lcg_randbelow i g) <= i)%nat.
Proof. simpl. pose proof (Nat.mod_upper_bound g (S i)). lia. Qed.

Lemma safe_shuffle_Permutation_witness :
  (forall i g, (snd (lcg_randbelow i g) <= i)%nat) /\
  exists ys, snd (safe_shuffle lcg_randbelow [1; 2; 3; 4] 7%nat) = Ok ys /\
             ys ≡ₚ [1; 2; 3; 4].
Proof.
  split; [exact lcg_randbelow_below|].
  exact (safe_shuffle_Permutation lcg_randbelow lcg_randbelow_below [1; 2; 3; 4] 7%nat).
Defined.

(* ------------------------------------------------------------------ *)
(** ** Transposing twice *)

Section TransposeTwice.
Context {A : Type}.
Local Open Scope nat_scope.

Lemma transpose_length_lt (m : list (list A)) (j : nat) :
  m <> [] ->
  (j < length (transpose m) <-> forall i row, m !! i = Some row -> j < length row).
Proof.
  destruct m as [|r rs]; [done|]. intros _. unfold transpose, py_zip.
  rewrite zip_fuel_length. split; [by intros [_ Hall]|].
  intros Hall. split; [by apply (Hall 0)|done].
Qed.

Lemma transpose_lookup (m : list (list A)) (j : nat) col :
  transpose m !! j = Some col -> forall i, col !! i = m !! i ≫= (fun row => row !! j).
Proof.
  destruct m as [|r rs]; [discriminate|]. apply zip_fuel_lookup.
Qed.

Lemma length_by_lookup (l : list A) (k : nat) :
  (forall i, is_Some (l !! i) <-> i < k) -> length l = k.
Proof.
  intros H. apply nat_eq_by_lt. intros i. by rewrite <- lookup_lt_is_Some, H.
Qed.

(** On a non-empty matrix whose rows all have the same positive length,
    transposing twice gives back the items of every row (as lists of
    items). *)
Lemma transpose_items_twice (m : list (list A)) (n : nat) :
  m <> [] -> 0 < n -> (forall i row, m !! i = Some row -> length row = n) ->
  transpose (transpose m) = m.
Proof.
  intros Hne Hn Hrows.
  set (T := transpose m).
  assert (HT : length T = n).
  { apply nat_eq_by_lt. intros j. unfold T. rewrite transpose_length_lt by done.
    split.
    - intros Hall. destruct m as [|r rs]; [done|].
      rewrite <- (Hrows 0 r eq_refl). by apply (Hall 0).
    - intros Hj i row Hrow. rewrite (Hrows i row Hrow). done. }
  assert (Hcols : forall j col, T !! j = Some col -> length col = length m).
  { intros j col Hcol. pose proof (lookup_lt_Some _ _ _ Hcol) as Hj.
    apply length_by_lookup. intros i. rewrite (transpose_lookup m j col Hcol i).
    rewrite <- lookup_lt_is_Some. split.
    - intros [x Hx]. destruct (m !! i); [by eexists|discriminate].
    - intros [row Hrow]. rewrite Hrow. simpl. apply lookup_lt_is_Some.
      rewrite (Hrows i row Hrow). lia. }
  assert (HTne : T <> []) by (intros E; rewrite E in HT; simpl in HT; lia).
  apply list_eq. intros i.
  destruct (decide (i < length m)) as [Hi|Hi].
  - assert (Hlt : i < length (transpose T)).
    { rewrite transpose_length_lt by done. intros j col Hcol.
      by rewrite (Hcols j col Hcol). }
    destruct (lookup_lt_is_Some_2 _ _ Hlt) as [r Hr].
    destruct (lookup_lt_is_Some_2 _ _ Hi) as [row Hrow].
    rewrite Hr, Hrow. f_equal. apply list_eq. intros j.
    rewrite (transpose_lookup T i r Hr j).
    destruct (decide (j < n)) as [Hj|Hj].
    + rewrite <- HT in Hj. destruct (lookup_lt_is_Some_2 _ _ Hj) as [col Hcol].
      rewrite Hcol. simpl. rewrite (transpose_lookup m j col Hcol i), Hrow. done.
    + rewrite (proj2 (lookup_ge_None T j)) by lia.
      symmetry. apply lookup_ge_None. rewrite (Hrows i row Hrow). lia.
  - rewrite (proj2 (lookup_ge_None m i)) by lia.
    apply lookup_ge_None. apply Nat.nlt_ge. intros Hlt.
    rewrite transpose_length_lt in Hlt by done.
    destruct (lookup_lt_is_Some_2 T 0 ltac:(lia)) as [col Hcol].
    specialize (Hlt 0 col Hcol). rewrite (Hcols 0 col Hcol) in Hlt. lia.
Qed.

(** Python sequences: a row of the argument may be a list or a tuple, and
    [zip] returns its rounds as tuples. *)
Inductive pyseq := PyList (items : list A) | PyTuple (items : list A).

Definition seq_items (s : pyseq) : list A :=
  match s with PyList l | PyTuple l => l end.

(** [zip( *seqs)] over sequences of either kind: it reads each sequence's
    items and returns a list of tuples. *)
Definition py_zip_seqs (seqs : list pyseq) : list pyseq :=
  PyTuple <$> py_zip (seq_items <$> seqs).

(** [transpose(m)] on a list of sequences. *)
Definition transpose_seqs (m : list pyseq) : list pyseq := py_zip_seqs m.

Lemma seq_items_PyTuple (l : list (list A)) : seq_items <$> (PyTuple <$> l) = l.
Proof. rewrite <- list_fmap_compose. apply list_fmap_id. Qed.

(** On a non-empty matrix (a list of lists) whose rows all have the same
    positive length, [transpose(transpose(m))] returns the rows of [m] item
    for item, each as a tuple; so it is not [m] itself, whose rows are
    lists. *)
Theorem transpose_transpose_tuples (m : list (list A)) (n : nat) :
  m <> [] -> 0 < n -> (forall i row, m !! i = Some row -> length row = n) ->
  transpose_seqs (transpose_seqs (PyList <$> m)) = PyTuple <$> m /\
  transpose_seqs (transpose_seqs (PyList <$> m)) <> PyList <$> m.
Proof.
  intros Hne Hn Hrows.
  assert (E : transpose_seqs (transpose_seqs (PyList <$> m)) = PyTuple <$> m).
  { unfold transpose_seqs, py_zip_seqs. rewrite seq_items_PyTuple.
    rewrite <- list_fmap_compose, list_fmap_id.
    fold (transpose m). fold (transpose (transpose m)).
    by rewrite (transpose_items_twice m n Hne Hn Hrows). }
  split; [exact E|]. rewrite E.
  destruct m as [|r rs]; [done|]. simpl. intros H. by injection H.
Qed.

End TransposeTwice.

Lemma transpose_transpose_tuples_witness :
  [[1; 2; 3]; [4; 5; 6]] <> [] /\ (0 < 3)%nat /\
  (forall i row, [[1; 2; 3]; [4; 5; 6]] !! i = Some row -> length row = 3%nat) /\
  transpose_seqs (transpose_seqs (PyList <$> [[1; 2; 3]; [4; 5; 6]]))
    = PyTuple <$> [[1; 2; 3]; [4; 5; 6]] /\
  transpose_seqs (transpose_seqs (PyList <$> [[1; 2; 3]; [4; 5; 6]]))
    <> PyList <$> [[1; 2; 3]; [4; 5; 6]].
Proof.
  assert (Hrows : forall i row, [[1; 2; 3]; [4; 5; 6]] !! i = Some row ->
                    length row = 3%nat).
  { intros [|[|i]] row H; simpl in H; [by injection H as <-..|discriminate]. }
  split; [discriminate|]. split; [lia|]. split; [exact Hrows|].
  apply (transpose_transpose_tuples [[1; 2; 3]; [4; 5; 6]] 3);
    [discriminate|lia|exact Hrows].
Defined.

(* ------------------------------------------------------------------ *)
(** ** The calls made by [zipWith] *)

Section ZipWithCalls.
Context {A : Type} (py_None : A).
Local Open Scope nat_scope.

Lemma map_state_fst {S B C : Type} (g : B -> comp S C)
    (Hg : forall b s, exists c, snd (g b s) = Ok c) (l : list B) (s : S) :
  fst (map_state g l s) = fold_left (fun s b => fst (g b s)) l s.
Proof.
  revert s. induction l as [|b l IH]; intros s; simpl; [done|].
  destruct (Hg b s) as [c Hc]. destruct (g b s) as [s1 r]. simpl in Hc. subst r.
  simpl. rewrite <- IH. destruct (map_state g l s1) as [s2 [|]]; done.
Qed.

Lemma zip_longest_spec (xs ys : list A) :
  length (zip_longest py_None xs ys) = Nat.max (length xs) (length ys) /\
  (forall k, k < Nat.max (length xs) (length ys) ->
     zip_longest py_None xs ys !! k =
       Some (default py_None (xs !! k), default py_None (ys !! k))).
Proof.
  revert ys. induction xs as [|x xs IH]; intros ys; simpl.
  - rewrite length_map. split; [done|]. intros k Hk.
    rewrite list_lookup_fmap. simpl.
    destruct (lookup_lt_is_Some_2 ys k Hk) as [y Hy]. by rewrite Hy.
  - destruct ys as [|y ys]; simpl.
    + destruct (IH []) as [Hlen Hlk]. simpl in Hlen, Hlk.
      rewrite Hlen, Nat.max_0_r. split; [done|].
      intros [|k] Hk; simpl; [done|]. rewrite Hlk by lia.
      done.
    + destruct (IH ys) as [Hlen Hlk]. rewrite Hlen. split; [done|].
      intros [|k] Hk; simpl; [done|]. apply Hlk. lia.
Qed.

(** When [f] never raises, [zipWith f xs ys] calls [f] once per position
    of the longer list, in order, on the elements at that position (the
    shorter list padded with [None]), and keeps the effects of every call. *)
Theorem zipWith_calls {S : Type} (f : A -> A -> comp S A)
    (Hf : forall x y s, exists v, snd (f x y s) = Ok v) (xs ys : list A) (s : S) :
  fst (zipWith py_None f xs ys s) =
    fold_left (fun s '(x, y) => fst (f x y s)) (zip_longest py_None xs ys) s /\
  length (zip_longest py_None xs ys) = Nat.max (length xs) (length ys) /\
  (forall k, k < Nat.max (length xs) (length ys) ->
     zip_longest py_None xs ys !! k =
       Some (default py_None (xs !! k), default py_None (ys !! k))).
Proof.
  split; [|apply zip_longest_spec].
  assert (Hfst : fst (zipWith py_None f xs ys s) = fst (py_map2 py_None f xs ys s)).
  { unfold zipWith. by destruct (py_map2 py_None f xs ys s) as [s' [|]]. }
  rewrite Hfst. unfold py_map2. rewrite map_state_fst.
  - generalize (zip_longest py_None xs ys) s. intros l.
    induction l as [|[x y] l IH]; intros s0; simpl; [done|]. apply IH.
  - intros [x y] s'. apply Hf.
Qed.

End ZipWithCalls.

(** Counts its calls in the state and returns its first argument. *)
Definition count_call (x y : pyval) : comp nat pyval := fun n => (S n, Ok x).

Lemma zipWith_calls_witness :
  (forall x y s, exists v, snd (count_call x y s) = Ok v) /\
  fst (zipWith PNone count_call [PInt 1; PInt 2; PInt 3] [PInt 4] 0%nat) = 3%nat.
Proof.
  assert (Hf : forall x y s, exists v, snd (count_call x y s) = Ok v)
    by (intros x y s; by eexists).
  split; [exact Hf|].
  destruct (zipWith_calls PNone count_call Hf [PInt 1; PInt 2; PInt 3] [PInt 4] 0%nat)
    as [H _].
  rewrite H. reflexivity.
Defined.
